(** * arxiv_tracker/query.py: the search-query compiler

    A shallow embedding of [arxiv_tracker/query.py] and the properties of
    its five functions [_quote], [_field_or], [_expand_variants],
    [_kw_group] and [build_search_query].

    Python [str] values are modelled as [string]; a character stands for
    the code point of the same number, so the model covers the strings
    over code points below 256 (Basic Latin and Latin-1 Supplement).
    Arguments that may be [None] are [option]s. *)

From Stdlib Require Import String Ascii List ListSet Bool Arith Lia.
From Stdlib Require Import Permutation Sorted.
Import ListNotations.
Open Scope string_scope.

(** ** The Python built-ins the module uses *)

Module Py.

(** [str.isspace] on one character, which is also the class [\s] of
    [re] for [str] patterns and the set [str.strip()] removes:
    TAB..CR, FS..US, SPACE, NEL and NBSP below 256. *)
Definition isspace (c : ascii) : bool :=
  let n := nat_of_ascii c in
  (((9 <=? n) && (n <=? 13)) || ((28 <=? n) && (n <=? 32))
   || (n =? 133) || (n =? 160))%nat.

(** [bool(s)] for a string: non-empty. *)
Definition truthy (s : string) : bool :=
  match s with EmptyString => false | String _ _ => true end.

Fixpoint lstrip (s : string) : string :=
  match s with
  | EmptyString => EmptyString
  | String c s' => if isspace c then lstrip s' else s
  end.

Fixpoint rstrip (s : string) : string :=
  match s with
  | EmptyString => EmptyString
  | String c s' =>
      match rstrip s' with
      | EmptyString => if isspace c then EmptyString else String c EmptyString
      | r => String c r
      end
  end.

(** [s.strip()] *)
Definition strip (s : string) : string := rstrip (lstrip s).

(** [sub in s] *)
Fixpoint contains (sub s : string) : bool :=
  prefix sub s ||
  match s with
  | EmptyString => false
  | String _ s' => contains sub s'
  end.

(** [s.replace(old, new)] for one-character [old] and [new]. *)
Fixpoint replace (old new : ascii) (s : string) : string :=
  match s with
  | EmptyString => EmptyString
  | String c s' =>
      String (if Ascii.eqb c old then new else c) (replace old new s')
  end.

Definition shift_up (c : ascii) : ascii := ascii_of_nat (nat_of_ascii c + 32).
Definition shift_down (c : ascii) : ascii := ascii_of_nat (nat_of_ascii c - 32).

(** [str.lower] on one character: A..Z and the capital letters
    U+00C0..U+00DE (the sign U+00D7 apart) move up by 32. *)
Definition lower_char (c : ascii) : ascii :=
  let n := nat_of_ascii c in
  if (((65 <=? n) && (n <=? 90))
      || ((192 <=? n) && (n <=? 222) && negb (n =? 215)))%nat
  then shift_up c else c.

(** [str.upper] on one character: a..z and the small letters
    U+00E0..U+00FE (the sign U+00F7 apart) move down by 32, and U+00DF
    becomes SS.  The upper-case forms of U+00B5 and U+00FF lie above 255;
    the two characters are left as they are, which no comparison of the
    module can tell apart (its only use of [upper] is a test against
    AND). *)
Definition upper_char (c : ascii) : string :=
  let n := nat_of_ascii c in
  if (n =? 223)%nat then "SS"
  else if (((97 <=? n) && (n <=? 122))
           || ((224 <=? n) && (n <=? 254) && negb (n =? 247)))%nat
  then String (shift_down c) EmptyString
  else String c EmptyString.

Fixpoint lower (s : string) : string :=
  match s with
  | EmptyString => EmptyString
  | String c s' => String (lower_char c) (lower s')
  end.

Fixpoint upper (s : string) : string :=
  match s with
  | EmptyString => EmptyString
  | String c s' => upper_char c ++ upper s'
  end.

(** [sep.join(parts)] *)
Definition join (sep : string) (parts : list string) : string :=
  String.concat sep parts.

(** [re.search(r'[\s-]', t)] as a truth value: some character of [t] is
    white space or a hyphen. *)
Fixpoint re_search_space_hyphen (t : string) : bool :=
  match t with
  | EmptyString => false
  | String c t' =>
      isspace c || Ascii.eqb c "-" || re_search_space_hyphen t'
  end.

(** [xs or []] *)
Definition or_nil (xs : option (list string)) : list string :=
  match xs with Some l => l | None => [] end.

(** [s or d] for a string that may be [None]. *)
Definition or_default (s : option string) (d : string) : string :=
  match s with
  | Some v => if truthy v then v else d
  | None => d
  end.

(** A [set] of strings is kept as the list of its distinct elements in
    insertion order; [set.add] is [set_add string_dec].  The order in
    which CPython iterates over a set follows the hash values of its
    elements, which are salted per process, so the iteration order is a
    parameter: any function that lists each element once. *)
Record SetOrder : Type := {
  iter :> list string -> list string;
  iter_perm : forall l, NoDup l -> Permutation (iter l) l
}.

(** [sorted(l, key=len, reverse=True)]: a stable sort, so elements of
    equal length keep the order they have in [l]. *)
Fixpoint insert_len_desc (x : string) (l : list string) : list string :=
  match l with
  | [] => [x]
  | y :: l' =>
      if (String.length x <? String.length y)%nat
      then y :: insert_len_desc x l'
      else x :: l
  end.

Fixpoint sorted_len_desc (l : list string) : list string :=
  match l with
  | [] => []
  | x :: l' => insert_len_desc x (sorted_len_desc l')
  end.

End Py.

Import Py.

(** ** The module *)

(** The double-quote character. *)
Definition dq : string := String "034"%char EmptyString.

Definition FIELDS : list string := ["ti"; "abs"; "co"].

Definition _quote (term : string) : string :=
  let t := strip term in
  if re_search_space_hyphen t then dq ++ t ++ dq else t.

Definition _field_or (fields : list string) (term : string) : string :=
  let q := _quote term in
  "(" ++ join " OR " (map (fun f => f ++ ":" ++ q) fields) ++ ")".

Definition ov_terms : list string :=
  ["open vocabulary"; "open-vocabulary";
   "open-vocabulary segmentation"; "open vocabulary segmentation"].

Definition seg_terms : list string := ["segmentation"; "image segmentation"].

(** The set [out] of [_expand_variants] once both [add]s are done. *)
Definition variant_set (k : string) : list string :=
  let out := [k] in
  let out :=
    if contains " " k then set_add string_dec (replace " " "-" k) out
    else out in
  let out :=
    if contains "-" k then set_add string_dec (replace "-" " " k) out
    else out in
  out.

(** The test of step 2 of [_kw_group]. *)
Definition ov_trigger (kw : string) : bool :=
  let low := lower kw in
  (contains "open vocabulary" low || contains "open-vocabulary" low)
  && contains "segmentation" low.

(** The disjunct step 2 of [_kw_group] appends. *)
Definition ov_clause : string :=
  let ov_or := "(" ++ join " OR " (map (_field_or FIELDS) ov_terms) ++ ")" in
  let seg_or := "(" ++ join " OR " (map (_field_or FIELDS) seg_terms) ++ ")" in
  "(" ++ ov_or ++ " AND " ++ seg_or ++ ")".

(** [[x.strip() for x in (xs or []) if x and x.strip()]] *)
Definition stripped (xs : option (list string)) : list string :=
  map strip (filter (fun x => truthy x && truthy (strip x)) (or_nil xs)).

(** [(logic or "AND").upper() == "AND"] *)
Definition logic_is_and (logic : option string) : bool :=
  String.eqb (upper (or_default logic "AND")) "AND".

Section WithSetOrder.

(** The iteration order of the sets of the running process. *)
Variable order : SetOrder.

Definition _expand_variants (kw : string) : list string :=
  let k := strip kw in
  sorted_len_desc (order (variant_set k)).

(** The list [parts] of [_kw_group] when the function returns. *)
Definition kw_parts (kw : string) : list string :=
  let variants := _expand_variants kw in
  let parts := map (_field_or FIELDS) variants in
  if ov_trigger kw then (parts ++ [ov_clause])%list else parts.

Definition _kw_group (kw : string) : string :=
  "(" ++ join " OR " (kw_parts kw) ++ ")".

Definition build_search_query
    (categories keywords : option (list string))
    (logic : option string)
    (exclude_keywords : option (list string)) : string :=
  let cats := stripped categories in
  let keys := stripped keywords in
  let exclude_keys := stripped exclude_keywords in
  let cat_q :=
    match cats with
    | [] => EmptyString
    | _ => "(" ++ join " OR " (map (fun c => "cat:" ++ c) cats) ++ ")"
    end in
  let key_q :=
    match keys with
    | [] => EmptyString
    | _ => "(" ++ join " OR " (map _kw_group keys) ++ ")"
    end in
  let exclude_q :=
    match exclude_keys with
    | [] => EmptyString
    | _ => "(" ++ join " OR " (map _kw_group exclude_keys) ++ ")"
    end in
  let main_query :=
    if truthy cat_q && truthy key_q then
      let op := if logic_is_and logic then "AND" else "OR" in
      cat_q ++ " " ++ op ++ " " ++ key_q
    else if truthy cat_q then cat_q
    else if truthy key_q then key_q
    else "all:*" in
  if truthy exclude_q
  then "(" ++ main_query ++ ") ANDNOT " ++ exclude_q
  else main_query.

End WithSetOrder.

(** Two iteration orders: insertion order and its reverse. *)
Definition insertion_order : SetOrder :=
  {| iter := fun l => l; iter_perm := fun l _ => Permutation_refl l |}.

Definition reverse_order : SetOrder :=
  {| iter := @rev string;
     iter_perm := fun l _ => Permutation_sym (Permutation_rev l) |}.

(** ** Vocabulary of the statements *)

(** The first and the last character of a string, as tests for white
    space. *)
Definition starts_space (s : string) : bool :=
  match s with
  | EmptyString => false
  | String c _ => isspace c
  end.

Fixpoint ends_space (s : string) : bool :=
  match s with
  | EmptyString => false
  | String c EmptyString => isspace c
  | String _ s' => ends_space s'
  end.

(** The characters of a string. *)
Definition chars (s : string) : list ascii := list_ascii_of_string s.

(** A term is trimmed when [strip] leaves it as it is. *)
Definition trimmed (t : string) : Prop := strip t = t.

(** Some character of [t] is white space or a hyphen. *)
Definition has_space_or_hyphen (t : string) : Prop :=
  exists c, In c (chars t) /\ (isspace c = true \/ c = "-"%char).

(** [a] may stand before [b] in a list that is longest first. *)
Definition longer_first (a b : string) : Prop :=
  String.length b <= String.length a.

(** [a] may stand before [b] in a list that is longest first with ties in
    ascending order of the strings. *)
Definition longer_then_lex (a b : string) : Prop :=
  String.length b < String.length a
  \/ (String.length a = String.length b /\ String.leb a b = true).

(** Every entry of the list is empty or white space only, or the list is
    absent. *)
Definition all_blank (xs : option (list string)) : Prop :=
  forall x, In x (or_nil xs) -> strip x = EmptyString.

(** [(cat:C1 OR cat:C2 OR ...)] *)
Definition cat_group (cats : list string) : string :=
  "(" ++ join " OR " (map (fun c => "cat:" ++ c) cats) ++ ")".

(** [(KeywordGroup(k1) OR KeywordGroup(k2) OR ...)] *)
Definition kw_or_group (o : SetOrder) (keys : list string) : string :=
  "(" ++ join " OR " (map (_kw_group o) keys) ++ ")".

(** The main query: the combination of the category expression and the
    keyword expression with the operator [op], one of them alone, or the
    query that matches everything. *)
Definition main_query (o : SetOrder) (cats keys : list string) (op : string)
  : string :=
  match cats, keys with
  | [], [] => "all:*"
  | _ :: _, [] => cat_group cats
  | [], _ :: _ => kw_or_group o keys
  | _ :: _, _ :: _ => cat_group cats ++ " " ++ op ++ " " ++ kw_or_group o keys
  end.

(** The logic argument is a string whose upper-case form is AND. *)
Definition matches_and (logic : option string) : bool :=
  match logic with
  | Some s => String.eqb (upper s) "AND"
  | None => false
  end.

(** [(ti:q OR abs:q OR co:q)] *)
Definition fan (q : string) : string :=
  "(ti:" ++ q ++ " OR abs:" ++ q ++ " OR co:" ++ q ++ ")".

(** A term between two double quotes. *)
Definition quoted (t : string) : string := dq ++ t ++ dq.

(** The query [q] with the exclusion keywords [excl] taken out of it. *)
Definition with_exclusion (o : SetOrder) (excl : list string) (q : string)
  : string :=
  match excl with
  | [] => q
  | _ :: _ => "(" ++ q ++ ") ANDNOT " ++ kw_or_group o excl
  end.

(** The spellings of AND in upper and lower case. *)
Definition and_spellings : list string :=
  ["AND"; "ANd"; "AnD"; "And"; "aND"; "aNd"; "anD"; "and"].

(** The logic argument is absent, empty or a spelling of AND. *)
Definition selects_and (logic : option string) : Prop :=
  match logic with
  | None => True
  | Some s => s = EmptyString \/ In s and_spellings
  end.

(** The nesting depth after reading [s] from depth [d], or [None] when a
    closing parenthesis has no opening one before it. *)
Fixpoint paren_depth (d : nat) (s : string) : option nat :=
  match s with
  | EmptyString => Some d
  | String c s' =>
      if Ascii.eqb c "(" then paren_depth (S d) s'
      else if Ascii.eqb c ")" then
        match d with
        | 0 => None
        | S d' => paren_depth d' s'
        end
      else paren_depth d s'
  end.

(** The parentheses of [s] are balanced. *)
Definition balanced (s : string) : Prop := paren_depth 0 s = Some 0.

(** A string is neutral when it brings every depth back to itself. *)
Definition neutral (s : string) : Prop := forall d, paren_depth d s = Some d.

(** ** Strings *)

Lemma append_assoc (a b c : string) : (a ++ b) ++ c = a ++ (b ++ c).
Proof. induction a as [|x a IH]; simpl; [reflexivity | now rewrite IH]. Qed.

Lemma ends_space_cons (c : ascii) (s : string) :
  s <> EmptyString -> ends_space (String c s) = ends_space s.
Proof. destruct s; [congruence | reflexivity]. Qed.

Lemma ends_space_last (s : string) (c : ascii) :
  ends_space (s ++ String c EmptyString) = isspace c.
Proof.
  induction s as [|x s IH]; [reflexivity|].
  change (String x s ++ String c EmptyString)
    with (String x (s ++ String c EmptyString)).
  rewrite ends_space_cons; [exact IH | now destruct s].
Qed.

(** ** [strip] *)

Lemma lstrip_starts (s : string) : starts_space (lstrip s) = false.
Proof.
  induction s as [|c s IH]; [reflexivity|].
  simpl. destruct (isspace c) eqn:E; [exact IH | simpl; exact E].
Qed.

Lemma lstrip_fixed (s : string) : starts_space s = false -> lstrip s = s.
Proof. destruct s as [|c s]; simpl; [reflexivity | now intros ->]. Qed.

Lemma rstrip_cons (c : ascii) (s : string) :
  rstrip (String c s) =
  match rstrip s with
  | EmptyString => if isspace c then EmptyString else String c EmptyString
  | r => String c r
  end.
Proof. reflexivity. Qed.

Lemma rstrip_ends (s : string) : ends_space (rstrip s) = false.
Proof.
  induction s as [|c s IH]; [reflexivity|].
  rewrite rstrip_cons. destruct (rstrip s) as [|d r] eqn:E.
  - destruct (isspace c) eqn:Ec; simpl; [reflexivity | exact Ec].
  - rewrite ends_space_cons; [exact IH | discriminate].
Qed.

Lemma rstrip_fixed (s : string) : ends_space s = false -> rstrip s = s.
Proof.
  induction s as [|c s IH]; [reflexivity|].
  intros H. rewrite rstrip_cons. destruct s as [|d s'].
  - simpl in *. now rewrite H.
  - rewrite ends_space_cons in H by discriminate.
    now rewrite (IH H).
Qed.

Lemma rstrip_starts (s : string) :
  starts_space s = false -> starts_space (rstrip s) = false.
Proof.
  destruct s as [|c s]; [reflexivity|].
  intros H. simpl in H. rewrite rstrip_cons.
  destruct (rstrip s); [rewrite H|]; simpl; exact H.
Qed.

Lemma strip_starts (s : string) : starts_space (strip s) = false.
Proof. apply rstrip_starts, lstrip_starts. Qed.

Lemma strip_ends (s : string) : ends_space (strip s) = false.
Proof. apply rstrip_ends. Qed.

Lemma strip_fixed (s : string) :
  starts_space s = false -> ends_space s = false -> strip s = s.
Proof.
  intros Hs He. unfold strip. rewrite (lstrip_fixed s Hs).
  now apply rstrip_fixed.
Qed.

Lemma strip_idempotent (s : string) : strip (strip s) = strip s.
Proof. apply strip_fixed; [apply strip_starts | apply strip_ends]. Qed.

(** ** [_quote] *)

Lemma re_search_space_hyphen_iff (t : string) :
  re_search_space_hyphen t = true <-> has_space_or_hyphen t.
Proof.
  unfold has_space_or_hyphen, chars. induction t as [|c t IH]; simpl.
  - split; [discriminate | intros (c & [] & _)].
  - rewrite !orb_true_iff, IH, Ascii.eqb_eq. split.
    + intros [[H | H] | (d & Hd & H)].
      * exists c. auto.
      * exists c. auto.
      * exists d. auto.
    + intros (d & [<- | Hd] & H).
      * destruct H; auto.
      * right. exists d. auto.
Qed.

Lemma contains_char_chars (c : ascii) (t : string) :
  contains (String c EmptyString) t = true -> In c (chars t).
Proof.
  unfold chars. induction t as [|d t IH]; simpl; [discriminate|].
  destruct (ascii_dec c d) as [-> | Hne]; [auto|].
  simpl. intros H. right. apply IH. exact H.
Qed.

(** A term that contains a space or a hyphen has a white-space character
    or a hyphen. *)
Lemma contains_space_or_hyphen (t : string) :
  contains " " t = true \/ contains "-" t = true -> has_space_or_hyphen t.
Proof.
  intros [H | H]; apply contains_char_chars in H.
  - exists " "%char. split; [exact H | now left].
  - exists "-"%char. split; [exact H | now right].
Qed.

Lemma quote_unfold (term : string) :
  _quote term =
  if re_search_space_hyphen (strip term)
  then dq ++ strip term ++ dq else strip term.
Proof. reflexivity. Qed.

(** C8 as stated fails in both halves.  A term of one space and one
    letter contains a space, and [_quote] returns the letter alone, not the
    term between quotes.  A TAB is neither a space nor a hyphen, and a
    trimmed term with one inside is quoted, not returned unchanged. *)
Lemma quote_claim_fails :
  (contains " " " a" = true /\ _quote " a" = "a"
   /\ _quote " a" <> dq ++ " a" ++ dq)
  /\ (let t := "a" ++ String "009" "b" in
      trimmed t /\ t <> EmptyString
      /\ contains " " t = false /\ contains "-" t = false
      /\ _quote t = dq ++ t ++ dq /\ _quote t <> t).
Proof. repeat split; try reflexivity; discriminate. Qed.

(** C8, amended: a trimmed term with a white-space character or a hyphen
    in it is returned between two double quotes, and a trimmed term with
    neither is returned unchanged. *)
Theorem quote_trimmed (t : string) :
  trimmed t ->
  (has_space_or_hyphen t -> _quote t = dq ++ t ++ dq)
  /\ ((forall c, In c (chars t) -> isspace c = false /\ c <> "-"%char) ->
      _quote t = t).
Proof.
  intros Ht. rewrite quote_unfold, Ht. split.
  - intros H. apply re_search_space_hyphen_iff in H. now rewrite H.
  - intros H. destruct (re_search_space_hyphen t) eqn:E; [|reflexivity].
    apply re_search_space_hyphen_iff in E. destruct E as (c & Hc & Hw).
    destruct (H c Hc) as [Hs Hh]. destruct Hw; congruence.
Qed.

Lemma quote_trimmed_witness :
  trimmed "open vocabulary"
  /\ _quote "open vocabulary" = dq ++ "open vocabulary" ++ dq
  /\ _quote "nerf" = "nerf".
Proof.
  split; [reflexivity|]. split.
  - apply (quote_trimmed "open vocabulary" eq_refl).
    apply contains_space_or_hyphen. left. reflexivity.
  - apply (quote_trimmed "nerf" eq_refl).
    intros c Hc. simpl in Hc.
    repeat (destruct Hc as [<- | Hc]; [split; [reflexivity | discriminate]|]).
    destruct Hc.
Defined.

(** C10: [_quote] trims before it tests and quotes, so it agrees with
    itself on the trimmed input, its result neither starts nor ends with
    white space, and what stands between the quotes is the trimmed term. *)
Theorem quote_strips_first (s : string) :
  _quote s = _quote (strip s)
  /\ starts_space (_quote s) = false
  /\ ends_space (_quote s) = false
  /\ (_quote s = strip s \/ _quote s = dq ++ strip s ++ dq).
Proof.
  split; [|split; [|split]].
  - rewrite !quote_unfold, strip_idempotent. reflexivity.
  - rewrite quote_unfold. destruct (re_search_space_hyphen (strip s)).
    + reflexivity.
    + apply strip_starts.
  - rewrite quote_unfold. destruct (re_search_space_hyphen (strip s)).
    + change (dq ++ strip s ++ dq) with (String "034" (strip s ++ dq)).
      rewrite ends_space_cons.
      * apply ends_space_last.
      * now destruct (strip s).
    + apply strip_ends.
  - rewrite quote_unfold. destruct (re_search_space_hyphen (strip s)); auto.
Qed.

(** ** [sorted(..., key=len, reverse=True)] *)

Lemma insert_len_desc_perm (x : string) (l : list string) :
  Permutation (insert_len_desc x l) (x :: l).
Proof.
  induction l as [|y l IH]; simpl; [reflexivity|].
  destruct (String.length x <? String.length y)%nat; [|reflexivity].
  rewrite IH. apply perm_swap.
Qed.

Lemma sorted_len_desc_perm (l : list string) :
  Permutation (sorted_len_desc l) l.
Proof.
  induction l as [|x l IH]; simpl; [reflexivity|].
  rewrite insert_len_desc_perm. now constructor.
Qed.

Lemma longer_first_trans (a b c : string) :
  longer_first a b -> longer_first b c -> longer_first a c.
Proof. unfold longer_first. lia. Qed.

Lemma insert_len_desc_sorted (x : string) (l : list string) :
  StronglySorted longer_first l ->
  StronglySorted longer_first (insert_len_desc x l).
Proof.
  induction 1 as [|y l Hl IH Hy]; simpl.
  - repeat constructor.
  - destruct (String.length x <? String.length y)%nat eqn:E.
    + apply Nat.ltb_lt in E. constructor; [exact IH|].
      rewrite insert_len_desc_perm. constructor; [|exact Hy].
      unfold longer_first. lia.
    + apply Nat.ltb_ge in E.
      assert (Hxy : longer_first x y) by exact E.
      constructor; [now constructor|]. constructor; [exact Hxy|].
      eapply Forall_impl; [|exact Hy].
      intros z Hz. now apply longer_first_trans with y.
Qed.

Lemma sorted_len_desc_sorted (l : list string) :
  StronglySorted longer_first (sorted_len_desc l).
Proof.
  induction l as [|x l IH]; simpl; [constructor|].
  now apply insert_len_desc_sorted.
Qed.

(** The sort is stable: the elements of one length come out in the order
    they went in. *)
Lemma insert_len_desc_stable (n : nat) (x : string) (l : list string) :
  StronglySorted longer_first l ->
  filter (fun v => String.length v =? n)%nat (insert_len_desc x l) =
  filter (fun v => String.length v =? n)%nat (x :: l).
Proof.
  induction 1 as [|y l Hl IH Hy]; [reflexivity|].
  cbn [insert_len_desc].
  destruct (String.length x <? String.length y)%nat eqn:E; [|reflexivity].
  apply Nat.ltb_lt in E. cbn [filter] in *. rewrite IH.
  destruct (String.length x =? n)%nat eqn:Ex; [|reflexivity].
  destruct (String.length y =? n)%nat eqn:Ey; [|reflexivity].
  apply Nat.eqb_eq in Ex, Ey. lia.
Qed.

Lemma sorted_len_desc_stable (n : nat) (l : list string) :
  filter (fun v => String.length v =? n)%nat (sorted_len_desc l) =
  filter (fun v => String.length v =? n)%nat l.
Proof.
  induction l as [|x l IH]; [reflexivity|].
  cbn [sorted_len_desc].
  rewrite insert_len_desc_stable by apply sorted_len_desc_sorted.
  cbn [filter]. now rewrite IH.
Qed.

(** ** [_expand_variants] *)

Lemma variant_set_NoDup (k : string) : NoDup (variant_set k).
Proof.
  unfold variant_set.
  assert (H1 : NoDup [k]) by (constructor; [intros [] | constructor]).
  destruct (contains " " k), (contains "-" k);
    repeat apply set_add_nodup; exact H1.
Qed.

Lemma variant_set_In (k v : string) :
  In v (variant_set k) <->
  v = k
  \/ (contains " " k = true /\ v = replace " " "-" k)
  \/ (contains "-" k = true /\ v = replace "-" " " k).
Proof.
  unfold variant_set.
  destruct (contains " " k), (contains "-" k);
    rewrite ?set_add_iff; simpl; intuition congruence.
Qed.

Lemma expand_variants_perm (o : SetOrder) (kw : string) :
  Permutation (_expand_variants o kw) (variant_set (strip kw)).
Proof.
  unfold _expand_variants. rewrite sorted_len_desc_perm.
  apply iter_perm, variant_set_NoDup.
Qed.

(** C6: the variants are the trimmed keyword, its form with every space
    turned into a hyphen when it has a space, and its form with every
    hyphen turned into a space when it has a hyphen, each once; the two
    examples of the specification follow. *)
Theorem expand_variants_exact (o : SetOrder) (kw : string) :
  let k := strip kw in
  NoDup (_expand_variants o kw)
  /\ (forall v, In v (_expand_variants o kw) <->
        v = k
        \/ (contains " " k = true /\ v = replace " " "-" k)
        \/ (contains "-" k = true /\ v = replace "-" " " k))
  /\ Permutation (_expand_variants o "open vocabulary")
       ["open vocabulary"; "open-vocabulary"]
  /\ _expand_variants o "segmentation" = ["segmentation"].
Proof.
  intros k. split; [|split; [|split]].
  - eapply Permutation_NoDup; [|apply variant_set_NoDup].
    symmetry. apply expand_variants_perm.
  - intros v. rewrite <- variant_set_In. split; apply Permutation_in.
    + apply expand_variants_perm.
    + symmetry. apply expand_variants_perm.
  - apply expand_variants_perm.
  - unfold _expand_variants.
    change (variant_set (strip "segmentation")) with ["segmentation"].
    assert (H : o ["segmentation"] = ["segmentation"]).
    { apply Permutation_length_1_inv. symmetry. apply iter_perm.
      constructor; [intros [] | constructor]. }
    now rewrite H.
Qed.

(** With sets iterated in insertion order the two variants of
    open-vocabulary come out with the hyphenated one first, although both
    have fifteen characters and the one with the space is the smaller
    string: C7 fails in its tie-break. *)
Lemma expand_variants_tie_not_lex :
  _expand_variants insertion_order "open-vocabulary"
  = ["open-vocabulary"; "open vocabulary"]
  /\ ~ StronglySorted longer_then_lex
        (_expand_variants insertion_order "open-vocabulary").
Proof.
  split; [reflexivity|].
  change (_expand_variants insertion_order "open-vocabulary")
    with ["open-vocabulary"; "open vocabulary"].
  intros H. apply StronglySorted_inv in H. destruct H as [_ H].
  apply Forall_inv in H. destruct H as [H | [_ H]].
  - simpl in H. lia.
  - discriminate H.
Qed.

(** The order of the set shows in the result: the same keyword gives two
    lists under two iteration orders. *)
Example expand_variants_order_matters :
  _expand_variants insertion_order "open vocabulary"
  = ["open vocabulary"; "open-vocabulary"]
  /\ _expand_variants reverse_order "open vocabulary"
     = ["open-vocabulary"; "open vocabulary"].
Proof. split; reflexivity. Qed.

(** C7, amended: the variants are returned longest first, and variants of
    one length keep the order in which the set yields them. *)
Theorem expand_variants_longest_first (o : SetOrder) (kw : string) :
  StronglySorted longer_first (_expand_variants o kw)
  /\ forall n,
       filter (fun v => String.length v =? n)%nat (_expand_variants o kw) =
       filter (fun v => String.length v =? n)%nat
         (o (variant_set (strip kw))).
Proof.
  split.
  - apply sorted_len_desc_sorted.
  - intros n. apply sorted_len_desc_stable.
Qed.

(** ** [_kw_group] *)

Lemma join_cons (sep x y : string) (l : list string) :
  join sep (x :: y :: l) = x ++ sep ++ join sep (y :: l).
Proof. reflexivity. Qed.

Lemma join_snoc (sep x : string) (l : list string) :
  l <> [] -> join sep (l ++ [x])%list = join sep l ++ sep ++ x.
Proof.
  induction l as [|a l IH]; [congruence|]. intros _.
  destruct l as [|b l]; [reflexivity|].
  change (join sep ((a :: b :: l) ++ [x])%list)
    with (a ++ sep ++ join sep ((b :: l) ++ [x])%list).
  rewrite IH by discriminate.
  rewrite join_cons, !append_assoc. reflexivity.
Qed.

Lemma field_or_head (v : string) :
  exists r, _field_or FIELDS v = String "(" (String "t" r).
Proof. eexists. unfold _field_or, FIELDS, join. simpl. reflexivity. Qed.

Lemma ov_clause_head : exists r, ov_clause = String "(" (String "(" r).
Proof. eexists. vm_compute. reflexivity. Qed.

Lemma ov_clause_not_field_or (l : list string) :
  ~ In ov_clause (map (_field_or FIELDS) l).
Proof.
  intros H. apply in_map_iff in H. destruct H as (v & Hv & _).
  destruct (field_or_head v) as (r & Hr).
  destruct ov_clause_head as (r' & Hr').
  rewrite Hr, Hr' in Hv. discriminate Hv.
Qed.

Lemma expand_variants_not_nil (o : SetOrder) (kw : string) :
  _expand_variants o kw <> [].
Proof.
  intros H.
  assert (Hin : In (strip kw) (_expand_variants o kw)).
  { eapply Permutation_in; [symmetry; apply expand_variants_perm|].
    apply variant_set_In. now left. }
  rewrite H in Hin. destruct Hin.
Qed.

(** C2: a keyword whose lower-case form contains open vocabulary, with a
    space or a hyphen, and segmentation gets one more disjunct, the last
    one: the conjunction of the four open-vocabulary phrases and the two
    segmentation phrases, each over the three fields; any other keyword
    gets none. *)
Theorem kw_group_ov_clause (o : SetOrder) (kw : string) :
  let low := lower kw in
  let hit :=
    (contains "open vocabulary" low || contains "open-vocabulary" low)
    && contains "segmentation" low in
  let base := map (_field_or FIELDS) (_expand_variants o kw) in
  kw_parts o kw = (base ++ (if hit then [ov_clause] else []))%list
  /\ count_occ string_dec (kw_parts o kw) ov_clause = (if hit then 1 else 0)
  /\ _kw_group o kw =
       (if hit then "(" ++ join " OR " base ++ " OR " ++ ov_clause ++ ")"
        else "(" ++ join " OR " base ++ ")")
  /\ ov_clause =
       "((" ++ fan (quoted "open vocabulary")
        ++ " OR " ++ fan (quoted "open-vocabulary")
        ++ " OR " ++ fan (quoted "open-vocabulary segmentation")
        ++ " OR " ++ fan (quoted "open vocabulary segmentation")
        ++ ") AND ("
        ++ fan "segmentation"
        ++ " OR " ++ fan (quoted "image segmentation") ++ "))".
Proof.
  intros low hit base.
  assert (Hparts :
    kw_parts o kw = (base ++ (if hit then [ov_clause] else []))%list).
  { unfold kw_parts. fold base. change (ov_trigger kw) with hit.
    destruct hit; [reflexivity | now rewrite app_nil_r]. }
  split; [exact Hparts|]. split; [|split].
  - rewrite Hparts, count_occ_app.
    rewrite (proj1 (count_occ_not_In string_dec base ov_clause))
      by apply ov_clause_not_field_or.
    destruct hit; [|reflexivity].
    simpl. destruct (string_dec ov_clause ov_clause); congruence.
  - unfold _kw_group. rewrite Hparts. destruct hit.
    + rewrite join_snoc.
      * rewrite !append_assoc. reflexivity.
      * unfold base. intros H. apply map_eq_nil in H.
        now apply expand_variants_not_nil in H.
    + now rewrite app_nil_r.
  - reflexivity.
Qed.

(** The two keywords of the specification. *)
Example kw_group_ov_examples :
  ov_trigger "open vocabulary segmentation" = true
  /\ ov_trigger "transformer" = false
  /\ _kw_group insertion_order "transformer"
     = "((ti:transformer OR abs:transformer OR co:transformer))".
Proof. repeat split. Qed.

(** ** [build_search_query] *)

Lemma truthy_strip_false (x : string) :
  truthy x && truthy (strip x) = false <-> strip x = EmptyString.
Proof.
  destruct x as [|c x]; [now split|].
  cbn [truthy andb]. destruct (strip (String c x)); now split.
Qed.

Lemma stripped_nil_iff (xs : option (list string)) :
  stripped xs = [] <-> all_blank xs.
Proof.
  unfold stripped, all_blank. generalize (or_nil xs) as l.
  induction l as [|x l IH]; [now split|].
  cbn [filter]. split.
  - intros H y [Hxy | Hy].
    + subst y. apply truthy_strip_false.
      destruct (truthy x && truthy (strip x)); [discriminate H | reflexivity].
    + apply IH; [|exact Hy].
      destruct (truthy x && truthy (strip x)); [discriminate H | exact H].
  - intros H.
    rewrite (proj2 (truthy_strip_false x)) by (apply H; now left).
    apply IH. intros y Hy. apply H. now right.
Qed.

(** The function in terms of its three lists after filtering. *)
Lemma build_search_query_eq (o : SetOrder)
    (c k : option (list string)) (l : option string)
    (e : option (list string)) :
  build_search_query o c k l e =
  with_exclusion o (stripped e)
    (main_query o (stripped c) (stripped k)
       (if logic_is_and l then "AND" else "OR")).
Proof.
  unfold build_search_query, main_query, with_exclusion, cat_group,
    kw_or_group.
  destruct (stripped c), (stripped k), (stripped e); reflexivity.
Qed.

(** C1: with exclusion keywords left after filtering, the result is the
    main query in parentheses, then ANDNOT, then the parenthesised
    OR-join of [_kw_group] over the exclusion keywords in input order.
    The main query is what the same call returns without exclusions, and
    the exclusion expression is what the exclusion keywords compile to
    when they are passed as the only inclusion keywords. *)
Theorem exclusion_wraps_main_query (o : SetOrder)
    (c k : option (list string)) (l : option string)
    (e : option (list string)) :
  stripped e <> [] ->
  let mainQuery :=
    main_query o (stripped c) (stripped k)
      (if logic_is_and l then "AND" else "OR") in
  let exclusionExpr :=
    "(" ++ join " OR " (map (_kw_group o) (stripped e)) ++ ")" in
  build_search_query o c k l e = "(" ++ mainQuery ++ ") ANDNOT " ++ exclusionExpr
  /\ mainQuery = build_search_query o c k l None
  /\ exclusionExpr = build_search_query o None e l None.
Proof.
  intros He mainQuery exclusionExpr. split; [|split].
  - rewrite build_search_query_eq. fold mainQuery.
    destruct (stripped e) eqn:E; [congruence | reflexivity].
  - rewrite build_search_query_eq. reflexivity.
  - rewrite build_search_query_eq. unfold exclusionExpr.
    change (stripped None) with (@nil string). unfold main_query.
    destruct (stripped e) eqn:E; [congruence | reflexivity].
Qed.

Lemma exclusion_wraps_main_query_witness :
  build_search_query insertion_order
    (Some ["cs.CV"]) (Some ["nerf"]) (Some "AND") (Some ["survey"])
  = "((cat:cs.CV) AND (((ti:nerf OR abs:nerf OR co:nerf)))) ANDNOT "
    ++ "(((ti:survey OR abs:survey OR co:survey)))".
Proof.
  refine (proj1 (exclusion_wraps_main_query insertion_order
    (Some ["cs.CV"]) (Some ["nerf"]) (Some "AND") (Some ["survey"]) _)).
  vm_compute. discriminate.
Defined.

(** C3: the function is total, and a request whose three lists are absent
    or hold only empty and white-space entries compiles to the query that
    matches everything, whatever the logic argument. *)
Theorem empty_request_matches_everything (o : SetOrder)
    (c k : option (list string)) (l : option string)
    (e : option (list string)) :
  all_blank c -> all_blank k -> all_blank e ->
  build_search_query o c k l e = "all:*".
Proof.
  intros Hc Hk He. rewrite build_search_query_eq.
  apply stripped_nil_iff in Hc, Hk, He. rewrite Hc, Hk, He. reflexivity.
Qed.

Lemma empty_request_witness :
  build_search_query insertion_order (Some []) (Some []) (Some "AND") (Some [])
  = "all:*".
Proof.
  apply (empty_request_matches_everything insertion_order
    (Some []) (Some []) (Some "AND") (Some []));
    intros x Hx; simpl in Hx; destruct Hx.
Defined.

(** C9: without categories and keywords but with exclusion keywords, the
    exclusion is applied to the query that matches everything. *)
Theorem exclusion_applies_to_fallback (o : SetOrder)
    (c k : option (list string)) (l : option string)
    (e : option (list string)) :
  all_blank c -> all_blank k -> stripped e <> [] ->
  build_search_query o c k l e =
  "(all:*) ANDNOT " ++ "(" ++ join " OR " (map (_kw_group o) (stripped e)) ++ ")".
Proof.
  intros Hc Hk He. rewrite build_search_query_eq.
  apply stripped_nil_iff in Hc, Hk. rewrite Hc, Hk.
  destruct (stripped e) eqn:E; [congruence | reflexivity].
Qed.

Lemma exclusion_applies_to_fallback_witness :
  build_search_query insertion_order None (Some [" "]) None (Some [" survey "])
  = "(all:*) ANDNOT (((ti:survey OR abs:survey OR co:survey)))".
Proof.
  apply (exclusion_applies_to_fallback insertion_order
    None (Some [" "]) None (Some [" survey "])).
  - intros x Hx. simpl in Hx. destruct Hx.
  - intros x Hx. simpl in Hx. destruct Hx as [<- | []]. reflexivity.
  - vm_compute. discriminate.
Defined.

(** ** The logic argument *)

Lemma logic_is_and_nonempty (s : string) :
  s <> EmptyString -> logic_is_and (Some s) = String.eqb (upper s) "AND".
Proof. destruct s; [congruence | reflexivity]. Qed.

Lemma build_search_query_both (o : SetOrder)
    (c k : option (list string)) (l : option string)
    (e : option (list string)) :
  stripped c <> [] -> stripped k <> [] ->
  build_search_query o c k l e =
  with_exclusion o (stripped e)
    (cat_group (stripped c)
     ++ " " ++ (if logic_is_and l then "AND" else "OR") ++ " "
     ++ kw_or_group o (stripped k)).
Proof.
  intros Hc Hk. rewrite build_search_query_eq. unfold main_query.
  destruct (stripped c); [congruence|].
  destruct (stripped k); [congruence | reflexivity].
Qed.

(** An absent logic argument, and an empty one, do not match AND, and the
    category and keyword expressions are joined with AND all the same:
    C4 fails on the inputs it names in its parenthesis. *)
Lemma logic_absent_not_or :
  matches_and None = false /\ matches_and (Some EmptyString) = false
  /\ build_search_query insertion_order
       (Some ["cs.CV"]) (Some ["nerf"]) None None
     = "(cat:cs.CV) AND (((ti:nerf OR abs:nerf OR co:nerf)))"
  /\ build_search_query insertion_order
       (Some ["cs.CV"]) (Some ["nerf"]) (Some EmptyString) None
     = "(cat:cs.CV) AND (((ti:nerf OR abs:nerf OR co:nerf)))"
  /\ build_search_query insertion_order
       (Some ["cs.CV"]) (Some ["nerf"]) None None
     <> cat_group ["cs.CV"] ++ " OR " ++ kw_or_group insertion_order ["nerf"].
Proof. repeat split. discriminate. Qed.

(** C4, amended: with both expressions present, a non-empty logic string
    whose upper-case form is not AND joins them with OR; the strings or
    and OR give the same query. *)
Theorem logic_other_joins_with_or (o : SetOrder)
    (c k : option (list string)) (s : string)
    (e : option (list string)) :
  stripped c <> [] -> stripped k <> [] ->
  s <> EmptyString -> upper s <> "AND" ->
  build_search_query o c k (Some s) e =
  with_exclusion o (stripped e)
    (cat_group (stripped c) ++ " OR " ++ kw_or_group o (stripped k))
  /\ build_search_query o c k (Some "or") e =
     build_search_query o c k (Some "OR") e.
Proof.
  intros Hc Hk Hs Hu. split; [|now rewrite !build_search_query_eq].
  rewrite build_search_query_both by assumption.
  rewrite logic_is_and_nonempty by exact Hs.
  apply String.eqb_neq in Hu. now rewrite Hu.
Qed.

Lemma logic_other_joins_with_or_witness :
  build_search_query insertion_order
    (Some ["cs.CV"]) (Some ["nerf"]) (Some "or") None
  = "(cat:cs.CV) OR (((ti:nerf OR abs:nerf OR co:nerf)))".
Proof.
  refine (proj1 (logic_other_joins_with_or insertion_order
    (Some ["cs.CV"]) (Some ["nerf"]) "or" None _ _ _ _));
    vm_compute; discriminate.
Defined.

(** A logic string that is neither AND nor OR joins the two expressions
    with OR, not with AND: C5 fails on unrecognised input. *)
Lemma logic_unrecognised_not_and :
  build_search_query insertion_order
    (Some ["cs.CV"]) (Some ["nerf"]) (Some "XOR") None
  = "(cat:cs.CV) OR (((ti:nerf OR abs:nerf OR co:nerf)))"
  /\ build_search_query insertion_order
       (Some ["cs.CV"]) (Some ["nerf"]) (Some "XOR") None
     <> cat_group ["cs.CV"] ++ " AND " ++ kw_or_group insertion_order ["nerf"].
Proof. split; [reflexivity | discriminate]. Qed.

(** C5, amended: with both expressions present, a logic argument that is
    absent or empty joins them with AND. *)
Theorem logic_absent_defaults_to_and (o : SetOrder)
    (c k : option (list string)) (l : option string)
    (e : option (list string)) :
  stripped c <> [] -> stripped k <> [] ->
  l = None \/ l = Some EmptyString ->
  build_search_query o c k l e =
  with_exclusion o (stripped e)
    (cat_group (stripped c) ++ " AND " ++ kw_or_group o (stripped k)).
Proof.
  intros Hc Hk Hl. rewrite build_search_query_both by assumption.
  destruct Hl as [-> | ->]; reflexivity.
Qed.

Lemma logic_absent_defaults_to_and_witness :
  build_search_query insertion_order
    (Some ["cs.CV"]) (Some ["nerf"]) None (Some ["survey"])
  = "((cat:cs.CV) AND (((ti:nerf OR abs:nerf OR co:nerf)))) ANDNOT "
    ++ "(((ti:survey OR abs:survey OR co:survey)))".
Proof.
  refine (logic_absent_defaults_to_and insertion_order
    (Some ["cs.CV"]) (Some ["nerf"]) None (Some ["survey"]) _ _ _).
  - vm_compute. discriminate.
  - vm_compute. discriminate.
  - left. reflexivity.
Defined.

(** * Further properties *)

(** ** Characters, [contains] and [replace] *)

Lemma prefix_empty (t : string) : prefix EmptyString t = true.
Proof. destruct t; reflexivity. Qed.

Lemma chars_contains_char (c : ascii) (t : string) :
  In c (chars t) -> contains (String c EmptyString) t = true.
Proof.
  unfold chars. induction t as [|d t IH]; simpl; [intros []|].
  intros [-> | H].
  - destruct (ascii_dec c c); [|congruence].
    now rewrite prefix_empty.
  - rewrite (IH H). apply orb_true_r.
Qed.

Lemma contains_char_false (c : ascii) (t : string) :
  contains (String c EmptyString) t = false <-> ~ In c (chars t).
Proof.
  split.
  - intros H Hin. apply chars_contains_char in Hin. congruence.
  - intros H. destruct (contains (String c EmptyString) t) eqn:E;
      [|reflexivity].
    apply contains_char_chars in E. contradiction.
Qed.

Lemma replace_length (a b : ascii) (s : string) :
  String.length (replace a b s) = String.length s.
Proof. induction s as [|c s IH]; simpl; [reflexivity | now rewrite IH]. Qed.

Lemma replace_chars (a b : ascii) (s : string) :
  chars (replace a b s)
  = map (fun c => if Ascii.eqb c a then b else c) (chars s).
Proof.
  unfold chars. induction s as [|c s IH]; simpl; [reflexivity|].
  now rewrite IH.
Qed.

Lemma replace_removes (a b : ascii) (s : string) :
  a <> b -> ~ In a (chars (replace a b s)).
Proof.
  intros Hab. rewrite replace_chars. intros H.
  apply in_map_iff in H. destruct H as (c & Hc & _).
  destruct (Ascii.eqb_spec c a); congruence.
Qed.

Lemma replace_adds (a b : ascii) (s : string) :
  In a (chars s) -> In b (chars (replace a b s)).
Proof.
  intros H. rewrite replace_chars. apply in_map_iff.
  exists a. now rewrite Ascii.eqb_refl.
Qed.

Lemma replace_absent (a b : ascii) (s : string) :
  ~ In a (chars s) -> replace a b s = s.
Proof.
  unfold chars. induction s as [|c s IH]; simpl; [reflexivity|].
  intros H. destruct (Ascii.eqb_spec c a) as [-> | _]; [tauto|].
  rewrite IH; [reflexivity | tauto].
Qed.

Lemma replace_back (a b : ascii) (s : string) :
  ~ In b (chars s) -> replace b a (replace a b s) = s.
Proof.
  unfold chars. induction s as [|c s IH]; simpl; [reflexivity|].
  intros H. rewrite IH by tauto. f_equal.
  destruct (Ascii.eqb_spec c a) as [-> | Hca].
  - now rewrite Ascii.eqb_refl.
  - destruct (Ascii.eqb_spec c b) as [-> | _]; [tauto | reflexivity].
Qed.

Lemma replace_changes (a b : ascii) (s : string) :
  a <> b -> In a (chars s) -> replace a b s <> s.
Proof.
  intros Hab Hin Heq. apply (replace_removes a b s Hab).
  now rewrite Heq.
Qed.

(** ** The variants once more *)

Lemma sorted_len_desc_same_length (n : nat) (l : list string) :
  (forall v, In v l -> String.length v = n) -> sorted_len_desc l = l.
Proof.
  induction l as [|x l IH]; [reflexivity|]. intros H.
  cbn [sorted_len_desc]. rewrite IH by (intros v Hv; apply H; now right).
  destruct l as [|y l]; [reflexivity|]. cbn [insert_len_desc].
  rewrite (H x), (H y) by (simpl; auto).
  now rewrite Nat.ltb_irrefl.
Qed.

Lemma variant_set_length (k v : string) :
  In v (variant_set k) -> String.length v = String.length k.
Proof.
  intros H. apply variant_set_In in H.
  destruct H as [-> | [[_ ->] | [_ ->]]];
    [reflexivity | apply replace_length | apply replace_length].
Qed.

Lemma space_not_hyphen : " "%char <> "-"%char.
Proof. discriminate. Qed.

Lemma hyphen_not_space : "-"%char <> " "%char.
Proof. discriminate. Qed.

Lemma variant_set_cases (k : string) :
  variant_set k =
  match contains " " k, contains "-" k with
  | false, false => [k]
  | true, false => [k; replace " " "-" k]
  | false, true => [k; replace "-" " " k]
  | true, true => [k; replace " " "-" k; replace "-" " " k]
  end.
Proof.
  unfold variant_set.
  destruct (contains " " k) eqn:Es, (contains "-" k) eqn:Eh;
    try reflexivity.
  - apply contains_char_chars in Es, Eh.
    cbn [set_add].
    destruct (string_dec (replace " " "-" k) k) as [E | _].
    { now apply replace_changes in E; [|apply space_not_hyphen|]. }
    cbn [set_add].
    destruct (string_dec (replace "-" " " k) k) as [E | _].
    { now apply replace_changes in E; [|apply hyphen_not_space|]. }
    destruct (string_dec (replace "-" " " k) (replace " " "-" k)) as [E | _];
      [|reflexivity].
    exfalso. apply (replace_removes " " "-" k space_not_hyphen).
    rewrite <- E. now apply replace_adds.
  - apply contains_char_chars in Es. cbn [set_add].
    destruct (string_dec (replace " " "-" k) k) as [E | _]; [|reflexivity].
    now apply replace_changes in E; [|apply space_not_hyphen|].
  - apply contains_char_chars in Eh. cbn [set_add].
    destruct (string_dec (replace "-" " " k) k) as [E | _]; [|reflexivity].
    now apply replace_changes in E; [|apply hyphen_not_space|].
Qed.

(** X1: every variant has as many characters as the stripped keyword, so
    the sort on length moves nothing: the list returned is the set in its
    iteration order. *)
Theorem expand_variants_is_set_order (o : SetOrder) (kw : string) :
  (forall v, In v (_expand_variants o kw) ->
     String.length v = String.length (strip kw))
  /\ _expand_variants o kw = o (variant_set (strip kw)).
Proof.
  assert (H : forall v, In v (o (variant_set (strip kw))) ->
                String.length v = String.length (strip kw)).
  { intros v Hv. apply variant_set_length.
    eapply Permutation_in; [|exact Hv].
    apply iter_perm, variant_set_NoDup. }
  split.
  - intros v Hv. apply H. eapply Permutation_in; [|exact Hv].
    apply sorted_len_desc_perm.
  - unfold _expand_variants.
    now apply sorted_len_desc_same_length with (String.length (strip kw)).
Qed.

(** X2: a keyword has one variant, one more when its stripped form has a
    space and one more when it has a hyphen; its group has one disjunct
    per variant and one more under the open-vocabulary rule, so at most
    four. *)
Theorem expand_variants_count (o : SetOrder) (kw : string) :
  let k := strip kw in
  List.length (_expand_variants o kw)
  = 1 + Nat.b2n (contains " " k) + Nat.b2n (contains "-" k)
  /\ List.length (kw_parts o kw)
     = List.length (_expand_variants o kw) + Nat.b2n (ov_trigger kw)
  /\ List.length (kw_parts o kw) <= 4.
Proof.
  intros k.
  assert (H1 : List.length (_expand_variants o kw)
               = 1 + Nat.b2n (contains " " k) + Nat.b2n (contains "-" k)).
  { rewrite (Permutation_length (expand_variants_perm o kw)).
    fold k. rewrite variant_set_cases.
    destruct (contains " " k), (contains "-" k); reflexivity. }
  assert (H2 : List.length (kw_parts o kw)
               = List.length (_expand_variants o kw)
                 + Nat.b2n (ov_trigger kw)).
  { unfold kw_parts. destruct (ov_trigger kw).
    - rewrite length_app, length_map. reflexivity.
    - rewrite length_map. simpl. lia. }
  split; [exact H1|]. split; [exact H2|].
  rewrite H2, H1.
  destruct (contains " " k), (contains "-" k), (ov_trigger kw); simpl; lia.
Qed.

Lemma trimmed_edges (k : string) :
  trimmed k -> starts_space k = false /\ ends_space k = false.
Proof.
  intros H. rewrite <- H. split; [apply strip_starts | apply strip_ends].
Qed.

Lemma replace_space_starts (k : string) :
  starts_space k = false -> starts_space (replace " " "-" k) = false.
Proof.
  destruct k as [|c k]; [reflexivity|]. simpl.
  destruct (Ascii.eqb_spec c " "); [reflexivity | trivial].
Qed.

Lemma replace_not_empty (a b : ascii) (k : string) :
  k <> EmptyString -> replace a b k <> EmptyString.
Proof. destruct k; [congruence | discriminate]. Qed.

Lemma replace_space_ends (k : string) :
  ends_space k = false -> ends_space (replace " " "-" k) = false.
Proof.
  induction k as [|c k IH]; [reflexivity|].
  destruct k as [|d k].
  - simpl. destruct (Ascii.eqb_spec c " "); [reflexivity | trivial].
  - rewrite ends_space_cons by discriminate. intros H.
    change (replace " " "-" (String c (String d k)))
      with (String (if Ascii.eqb c " " then "-"%char else c)
              (replace " " "-" (String d k))).
    rewrite ends_space_cons by (apply replace_not_empty; discriminate).
    exact (IH H).
Qed.

(** X3: a trimmed keyword without a hyphen and the same keyword with its
    spaces turned into hyphens have the same variants. *)
Theorem expand_variants_hyphenated (o : SetOrder) (k : string) :
  trimmed k -> contains "-" k = false ->
  Permutation (_expand_variants o (replace " " "-" k)) (_expand_variants o k).
Proof.
  intros Ht Hh.
  destruct (trimmed_edges k Ht) as [Hs He].
  assert (Ht' : strip (replace " " "-" k) = replace " " "-" k).
  { apply strip_fixed;
      [now apply replace_space_starts | now apply replace_space_ends]. }
  rewrite !expand_variants_perm, Ht', Ht, !variant_set_cases, Hh.
  apply contains_char_false in Hh.
  destruct (contains " " k) eqn:Es.
  - apply contains_char_chars in Es.
    rewrite (proj2 (contains_char_false " " (replace " " "-" k)))
      by (apply replace_removes, space_not_hyphen).
    rewrite (chars_contains_char "-" (replace " " "-" k))
      by (now apply replace_adds).
    rewrite (replace_back " " "-" k Hh). apply perm_swap.
  - apply contains_char_false in Es.
    rewrite (replace_absent " " "-" k Es).
    rewrite (proj2 (contains_char_false " " k) Es).
    rewrite (proj2 (contains_char_false "-" k) Hh). reflexivity.
Qed.

Lemma expand_variants_hyphenated_witness :
  Permutation (_expand_variants insertion_order "open-vocabulary")
    (_expand_variants insertion_order "open vocabulary").
Proof.
  exact (expand_variants_hyphenated insertion_order "open vocabulary"
           eq_refl eq_refl).
Defined.

(** ** [_quote] and [_field_or] once more *)

(** X4: white space and hyphens leave [_quote] only between double
    quotes: the result has neither, or it is the stripped term in quotes. *)
Theorem quote_space_only_in_quotes (s : string) :
  (forall c, In c (chars (_quote s)) -> isspace c = false /\ c <> "-"%char)
  \/ _quote s = quoted (strip s).
Proof.
  rewrite quote_unfold.
  destruct (re_search_space_hyphen (strip s)) eqn:E; [now right | left].
  intros c Hc.
  assert (Hn : ~ has_space_or_hyphen (strip s)).
  { intros H. apply re_search_space_hyphen_iff in H. congruence. }
  split.
  - destruct (isspace c) eqn:Ec; [|reflexivity].
    exfalso. apply Hn. exists c. auto.
  - intros ->. apply Hn. exists "-"%char. auto.
Qed.

(** X5: [_field_or] ignores white space around its term, for any list of
    fields; over the three fields it is the fan-out ti, abs, co of the
    stripped term, in quotes exactly when that has white space or a
    hyphen. *)
Theorem field_or_fans (fields : list string) (t : string) :
  _field_or fields (strip t) = _field_or fields t
  /\ _field_or FIELDS t
     = fan (if re_search_space_hyphen (strip t)
            then quoted (strip t) else strip t)
  /\ (re_search_space_hyphen (strip t) = true <->
      has_space_or_hyphen (strip t)).
Proof.
  split; [|split].
  - unfold _field_or. rewrite !quote_unfold, strip_idempotent. reflexivity.
  - unfold _field_or, FIELDS, fan, join. rewrite quote_unfold.
    cbn [map String.concat]. rewrite !append_assoc. reflexivity.
  - apply re_search_space_hyphen_iff.
Qed.

(** ** Filtering and the shape of the query *)


Lemma stripped_clean (l : list string) :
  (forall x, In x l -> trimmed x /\ x <> EmptyString) ->
  stripped (Some l) = l.
Proof.
  unfold stripped, or_nil. induction l as [|x l IH]; [reflexivity|].
  intros H. destruct (H x (or_introl eq_refl)) as [Hx Hne].
  cbn [filter]. rewrite Hx.
  destruct x as [|c x]; [congruence|]. cbn [truthy andb map].
  rewrite Hx, IH; [reflexivity|]. intros y Hy. apply H. now right.
Qed.


(** X7: with nothing to filter, categories alone compile to the group of
    their [cat:] terms and keywords alone to the group of their keyword
    groups, in the order given and without merging repeats; the logic
    argument plays no part. *)
Theorem single_group_queries (o : SetOrder) (l : list string)
    (lg : option string) :
  l <> [] ->
  (forall x, In x l -> trimmed x /\ x <> EmptyString) ->
  build_search_query o (Some l) None lg None
  = "(" ++ join " OR " (map (fun c => "cat:" ++ c) l) ++ ")"
  /\ build_search_query o None (Some l) lg None
     = "(" ++ join " OR " (map (_kw_group o) l) ++ ")".
Proof.
  intros Hne Hl. rewrite !build_search_query_eq, (stripped_clean l Hl).
  change (stripped None) with (@nil string).
  destruct l; [congruence | split; reflexivity].
Qed.

Lemma single_group_queries_witness :
  build_search_query insertion_order (Some ["cs.CV"; "cs.LG"]) None None None
  = "(cat:cs.CV OR cat:cs.LG)".
Proof.
  refine (proj1 (single_group_queries insertion_order
                   ["cs.CV"; "cs.LG"] None _ _)).
  - discriminate.
  - intros x [<- | [<- | []]]; split; solve [reflexivity | discriminate].
Defined.

(** X8: unless categories and keywords are both present after filtering,
    the logic argument has no effect on the query. *)
Theorem logic_unused_without_both (o : SetOrder)
    (c k : option (list string)) (l l' : option string)
    (e : option (list string)) :
  stripped c = [] \/ stripped k = [] ->
  build_search_query o c k l e = build_search_query o c k l' e.
Proof.
  intros H. rewrite !build_search_query_eq. unfold main_query.
  destruct H as [-> | ->]; [|destruct (stripped c)]; reflexivity.
Qed.

Lemma logic_unused_without_both_witness :
  build_search_query insertion_order None (Some ["nerf"]) (Some "AND") None
  = build_search_query insertion_order None (Some ["nerf"]) (Some "OR") None.
Proof.
  apply (logic_unused_without_both insertion_order
           None (Some ["nerf"]) (Some "AND") (Some "OR") None).
  left. reflexivity.
Defined.

(** X9: the query that matches everything is returned for the empty
    request only: as soon as one category, keyword or exclusion keyword
    is left after filtering, the result is another string. *)
Theorem match_everything_iff_empty (o : SetOrder)
    (c k : option (list string)) (l : option string)
    (e : option (list string)) :
  build_search_query o c k l e = "all:*"
  <-> all_blank c /\ all_blank k /\ all_blank e.
Proof.
  rewrite <- !stripped_nil_iff, build_search_query_eq.
  unfold main_query, with_exclusion, cat_group, kw_or_group.
  destruct (stripped c), (stripped k), (stripped e); cbn;
    split; try discriminate; try tauto;
    intros (H1 & H2 & H3); discriminate.
Qed.

(** ** The spellings of AND *)

Ltac upper_char_cases c H :=
  destruct c as [[] [] [] [] [] [] [] []]; vm_compute in H;
  try discriminate H; injection H as H;
  (split; [first [left; reflexivity | right; reflexivity] | exact H]).

Lemma upper_char_A (c : ascii) (r r' : string) :
  upper_char c ++ r = String "A" r' ->
  (c = "A"%char \/ c = "a"%char) /\ r = r'.
Proof. intros H. upper_char_cases c H. Qed.

Lemma upper_char_N (c : ascii) (r r' : string) :
  upper_char c ++ r = String "N" r' ->
  (c = "N"%char \/ c = "n"%char) /\ r = r'.
Proof. intros H. upper_char_cases c H. Qed.

Lemma upper_char_D (c : ascii) (r r' : string) :
  upper_char c ++ r = String "D" r' ->
  (c = "D"%char \/ c = "d"%char) /\ r = r'.
Proof. intros H. upper_char_cases c H. Qed.

Lemma upper_empty (s : string) : upper s = EmptyString -> s = EmptyString.
Proof.
  destruct s as [|c s]; [reflexivity|]. cbn [upper]. unfold upper_char.
  destruct (_ =? _)%nat; [discriminate|].
  destruct (_ || _); discriminate.
Qed.

Lemma upper_is_and (s : string) : upper s = "AND" <-> In s and_spellings.
Proof.
  split.
  - destruct s as [|c1 [|c2 [|c3 s]]]; cbn [upper]; intros H.
    + discriminate H.
    + apply upper_char_A in H. destruct H as [_ H]. discriminate H.
    + apply upper_char_A in H. destruct H as [_ H].
      apply upper_char_N in H. destruct H as [_ H]. discriminate H.
    + apply upper_char_A in H. destruct H as [H1 H].
      apply upper_char_N in H. destruct H as [H2 H].
      apply upper_char_D in H. destruct H as [H3 H].
      apply upper_empty in H. subst s.
      destruct H1, H2, H3; subst; simpl; tauto.
  - unfold and_spellings.
    intros H. repeat (destruct H as [<- | H]; [reflexivity|]). destruct H.
Qed.

Lemma logic_is_and_iff (l : option string) :
  logic_is_and l = true <-> selects_and l.
Proof.
  destruct l as [[|c s]|]; cbn [selects_and].
  - split; [now left | reflexivity].
  - rewrite logic_is_and_nonempty by discriminate.
    rewrite String.eqb_eq, upper_is_and. split; [now right|].
    intros [H | H]; [discriminate H | exact H].
  - split; [trivial | reflexivity].
Qed.

(** X10: with categories and keywords both present, they are joined with
    AND when the logic argument is absent, empty or one of the eight
    spellings of AND in upper and lower case, and with OR for every other
    string, a spelling of AND with a space around it included. *)
Theorem logic_decision (o : SetOrder)
    (c k : option (list string)) (l : option string)
    (e : option (list string)) :
  stripped c <> [] -> stripped k <> [] ->
  (selects_and l ->
   build_search_query o c k l e =
   with_exclusion o (stripped e)
     (cat_group (stripped c) ++ " AND " ++ kw_or_group o (stripped k)))
  /\ (~ selects_and l ->
      build_search_query o c k l e =
      with_exclusion o (stripped e)
        (cat_group (stripped c) ++ " OR " ++ kw_or_group o (stripped k))).
Proof.
  intros Hc Hk. rewrite build_search_query_both by assumption.
  split; intros H.
  - apply logic_is_and_iff in H. now rewrite H.
  - destruct (logic_is_and l) eqn:E; [|reflexivity].
    apply logic_is_and_iff in E. contradiction.
Qed.

Lemma logic_decision_witness :
  build_search_query insertion_order
    (Some ["cs.CV"]) (Some ["nerf"]) (Some "And") None
  = "(cat:cs.CV) AND (((ti:nerf OR abs:nerf OR co:nerf)))"
  /\ build_search_query insertion_order
       (Some ["cs.CV"]) (Some ["nerf"]) (Some " AND ") None
     = "(cat:cs.CV) OR (((ti:nerf OR abs:nerf OR co:nerf)))".
Proof.
  split.
  - refine (proj1 (logic_decision insertion_order
      (Some ["cs.CV"]) (Some ["nerf"]) (Some "And") None _ _) _).
    + vm_compute. discriminate.
    + vm_compute. discriminate.
    + simpl. tauto.
  - refine (proj2 (logic_decision insertion_order
      (Some ["cs.CV"]) (Some ["nerf"]) (Some " AND ") None _ _) _).
    + vm_compute. discriminate.
    + vm_compute. discriminate.
    + intros [H | H]; [discriminate H|].
      simpl in H. repeat (destruct H as [H | H]; [discriminate H|]).
      destruct H.
Defined.

(** ** White space around a keyword *)

Lemma isspace_lower_char (c : ascii) : isspace (lower_char c) = isspace c.
Proof. destruct c as [[] [] [] [] [] [] [] []]; reflexivity. Qed.

Lemma lower_lstrip (s : string) : lower (lstrip s) = lstrip (lower s).
Proof.
  induction s as [|c s IH]; [reflexivity|].
  cbn [lstrip lower]. rewrite isspace_lower_char.
  destruct (isspace c); [exact IH | reflexivity].
Qed.

Lemma lower_rstrip (s : string) : lower (rstrip s) = rstrip (lower s).
Proof.
  induction s as [|c s IH]; [reflexivity|].
  cbn [lower]. rewrite !rstrip_cons, <- IH, isspace_lower_char.
  destruct (rstrip s); [destruct (isspace c)|]; reflexivity.
Qed.

Lemma lower_strip (s : string) : lower (strip s) = strip (lower s).
Proof. unfold strip. now rewrite lower_rstrip, lower_lstrip. Qed.

Lemma prefix_cons (a c : ascii) (p s : string) :
  prefix (String a p) (String c s)
  = if ascii_dec a c then prefix p s else false.
Proof. reflexivity. Qed.

Lemma contains_cons (p : string) (c : ascii) (s : string) :
  contains p (String c s) = prefix p (String c s) || contains p s.
Proof. reflexivity. Qed.

Lemma contains_lstrip (p s : string) :
  p <> EmptyString -> starts_space p = false ->
  contains p (lstrip s) = contains p s.
Proof.
  destruct p as [|a p]; [congruence|]. intros _ Ha. simpl in Ha.
  induction s as [|c s IH]; [reflexivity|].
  cbn [lstrip]. destruct (isspace c) eqn:Ec; [|reflexivity].
  rewrite IH, contains_cons, prefix_cons.
  destruct (ascii_dec a c) as [-> | _]; [congruence | reflexivity].
Qed.

Lemma prefix_rstrip (p s : string) :
  p <> EmptyString -> ends_space p = false ->
  prefix p (rstrip s) = prefix p s.
Proof.
  revert p. induction s as [|c s IH]; intros p Hp He; [reflexivity|].
  destruct p as [|a p]; [congruence|].
  rewrite rstrip_cons, prefix_cons.
  destruct p as [|b p].
  - simpl in He. rewrite prefix_empty.
    destruct (ascii_dec a c) as [<- | Hne].
    + rewrite He. destruct (rstrip s); rewrite prefix_cons;
        (destruct (ascii_dec a a); [apply prefix_empty | congruence]).
    + destruct (rstrip s); [destruct (isspace c)|];
        try reflexivity; rewrite prefix_cons;
        (destruct (ascii_dec a c); [congruence | reflexivity]).
  - rewrite ends_space_cons in He by discriminate.
    specialize (IH (String b p) ltac:(discriminate) He).
    destruct (rstrip s) as [|d r].
    + rewrite <- IH. destruct (isspace c).
      * destruct (ascii_dec a c); reflexivity.
      * rewrite prefix_cons. destruct (ascii_dec a c); reflexivity.
    + rewrite prefix_cons, IH. reflexivity.
Qed.

Lemma contains_rstrip (p s : string) :
  p <> EmptyString -> ends_space p = false ->
  contains p (rstrip s) = contains p s.
Proof.
  intros Hp He. induction s as [|c s IH]; [reflexivity|].
  rewrite contains_cons, <- IH, <- (prefix_rstrip p (String c s) Hp He).
  rewrite rstrip_cons.
  destruct (rstrip s) as [|d r].
  - destruct p as [|a p]; [congruence|].
    destruct (isspace c); [reflexivity|].
    rewrite contains_cons. cbn [contains]. now rewrite orb_false_r.
  - rewrite contains_cons. reflexivity.
Qed.

Lemma contains_strip (p s : string) :
  p <> EmptyString -> starts_space p = false -> ends_space p = false ->
  contains p (strip s) = contains p s.
Proof.
  intros Hp Hs He. unfold strip.
  now rewrite contains_rstrip, contains_lstrip.
Qed.

Lemma ov_trigger_strip (kw : string) : ov_trigger (strip kw) = ov_trigger kw.
Proof.
  unfold ov_trigger. rewrite lower_strip.
  rewrite !contains_strip by (reflexivity || discriminate). reflexivity.
Qed.

Lemma kw_parts_strip (o : SetOrder) (kw : string) :
  kw_parts o (strip kw) = kw_parts o kw.
Proof.
  unfold kw_parts, _expand_variants.
  now rewrite ov_trigger_strip, strip_idempotent.
Qed.

(** X11: white space around a keyword does not change its group: the
    variants are built from the stripped keyword, and the open-vocabulary
    test, made on the keyword as given, cannot see white space at the
    ends. *)
Theorem kw_group_ignores_outer_space (o : SetOrder) (kw : string) :
  _kw_group o (strip kw) = _kw_group o kw
  /\ ov_trigger (strip kw) = ov_trigger kw
  /\ _expand_variants o (strip kw) = _expand_variants o kw.
Proof.
  split; [|split].
  - unfold _kw_group. now rewrite kw_parts_strip.
  - apply ov_trigger_strip.
  - unfold _expand_variants. now rewrite strip_idempotent.
Qed.

(** X12: [_kw_group] and [_field_or] accept a keyword that is empty or
    white space only and build a group whose three field terms are
    empty. *)
Theorem blank_keyword_group (o : SetOrder) (kw : string) :
  strip kw = EmptyString ->
  _expand_variants o kw = [EmptyString]
  /\ _field_or FIELDS kw = "(ti: OR abs: OR co:)"
  /\ _kw_group o kw = "((ti: OR abs: OR co:))".
Proof.
  intros Hb.
  assert (Hv : _expand_variants o kw = [EmptyString]).
  { unfold _expand_variants. rewrite Hb.
    change (variant_set EmptyString) with [EmptyString].
    assert (H : o [EmptyString] = [EmptyString]).
    { apply Permutation_length_1_inv. symmetry. apply iter_perm.
      constructor; [intros [] | constructor]. }
    now rewrite H. }
  split; [exact Hv|]. split.
  - unfold _field_or. rewrite quote_unfold, Hb. reflexivity.
  - unfold _kw_group, kw_parts.
    rewrite Hv, <- ov_trigger_strip, Hb. reflexivity.
Qed.

Lemma blank_keyword_group_witness :
  _kw_group insertion_order "  " = "((ti: OR abs: OR co:))".
Proof.
  exact (proj2 (proj2 (blank_keyword_group insertion_order "  " eq_refl))).
Defined.

(** ** Parentheses *)

Lemma paren_depth_shift (n : nat) (s : string) (d d' : nat) :
  paren_depth d s = Some d' -> paren_depth (n + d) s = Some (n + d').
Proof.
  revert d. induction s as [|c s IH]; intros d; cbn [paren_depth].
  - intros [= <-]. reflexivity.
  - destruct (Ascii.eqb c "(").
    + intros H. apply IH in H. now rewrite Nat.add_succ_r in H.
    + destruct (Ascii.eqb c ")"); [|apply IH].
      destruct d as [|d]; [discriminate|].
      intros H. apply IH in H. now rewrite Nat.add_succ_r.
Qed.

Lemma balanced_neutral (s : string) : balanced s <-> neutral s.
Proof.
  split; [|intros H; apply H].
  intros H d. apply (paren_depth_shift d) in H.
  now rewrite Nat.add_0_r in H.
Qed.

Lemma paren_depth_app (a b : string) (d : nat) :
  paren_depth d (a ++ b) =
  match paren_depth d a with
  | Some d' => paren_depth d' b
  | None => None
  end.
Proof.
  revert d. induction a as [|c a IH]; intros d; [reflexivity|].
  cbn [append paren_depth].
  destruct (Ascii.eqb c "("); [apply IH|].
  destruct (Ascii.eqb c ")"); [|apply IH].
  destruct d; [reflexivity | apply IH].
Qed.

Lemma neutral_app (a b : string) : neutral a -> neutral b -> neutral (a ++ b).
Proof. intros Ha Hb d. now rewrite paren_depth_app, Ha. Qed.

Lemma neutral_wrap (a : string) : neutral a -> neutral ("(" ++ a ++ ")").
Proof.
  intros Ha d. change ("(" ++ a ++ ")") with (String "(" (a ++ ")")).
  cbn [paren_depth]. change (Ascii.eqb "(" "(") with true. cbv iota.
  now rewrite paren_depth_app, Ha.
Qed.

Lemma neutral_join (sep : string) (l : list string) :
  neutral sep -> Forall neutral l -> neutral (join sep l).
Proof.
  intros Hsep. induction 1 as [|x l Hx Hl IH]; [intros d; reflexivity|].
  destruct l as [|y l]; [exact Hx|].
  rewrite join_cons. auto using neutral_app.
Qed.

Lemma isspace_not_paren (c : ascii) :
  isspace c = true -> Ascii.eqb c "(" = false /\ Ascii.eqb c ")" = false.
Proof.
  intros H. split.
  - destruct (Ascii.eqb_spec c "("); [subst; discriminate H | reflexivity].
  - destruct (Ascii.eqb_spec c ")"); [subst; discriminate H | reflexivity].
Qed.

Lemma paren_depth_cons_ext (c : ascii) (r s : string) :
  (forall d, paren_depth d r = paren_depth d s) ->
  forall d, paren_depth d (String c r) = paren_depth d (String c s).
Proof.
  intros H d. cbn [paren_depth].
  destruct (Ascii.eqb c "("); [apply H|].
  destruct (Ascii.eqb c ")"); [|apply H].
  destruct d; [reflexivity | apply H].
Qed.

Lemma paren_depth_space (c : ascii) (s : string) (d : nat) :
  isspace c = true -> paren_depth d (String c s) = paren_depth d s.
Proof.
  intros H. destruct (isspace_not_paren c H) as [H1 H2].
  cbn [paren_depth]. now rewrite H1, H2.
Qed.

Lemma paren_depth_lstrip (s : string) (d : nat) :
  paren_depth d (lstrip s) = paren_depth d s.
Proof.
  induction s as [|c s IH]; [reflexivity|].
  cbn [lstrip]. destruct (isspace c) eqn:E; [|reflexivity].
  now rewrite paren_depth_space.
Qed.

Lemma paren_depth_rstrip (s : string) :
  forall d, paren_depth d (rstrip s) = paren_depth d s.
Proof.
  induction s as [|c s IH]; [reflexivity|].
  rewrite rstrip_cons. destruct (rstrip s) as [|e r].
  - destruct (isspace c) eqn:E.
    + intros d. now rewrite paren_depth_space, <- IH.
    + now apply paren_depth_cons_ext.
  - now apply paren_depth_cons_ext.
Qed.

Lemma neutral_strip (s : string) : neutral s -> neutral (strip s).
Proof.
  intros H d. unfold strip. now rewrite paren_depth_rstrip, paren_depth_lstrip.
Qed.

Lemma paren_depth_replace (a b : ascii) (s : string) :
  Ascii.eqb a "(" = false -> Ascii.eqb a ")" = false ->
  Ascii.eqb b "(" = false -> Ascii.eqb b ")" = false ->
  forall d, paren_depth d (replace a b s) = paren_depth d s.
Proof.
  intros Ha1 Ha2 Hb1 Hb2. induction s as [|c s IH]; [reflexivity|].
  intros d. cbn [replace paren_depth].
  destruct (Ascii.eqb_spec c a) as [-> | _].
  - now rewrite Ha1, Ha2, Hb1, Hb2.
  - destruct (Ascii.eqb c "("); [apply IH|].
    destruct (Ascii.eqb c ")"); [|apply IH].
    destruct d; [reflexivity | apply IH].
Qed.

Lemma neutral_quote (t : string) : neutral t -> neutral (_quote t).
Proof.
  intros H. rewrite quote_unfold. apply neutral_strip in H.
  destruct (re_search_space_hyphen (strip t)); [|exact H].
  repeat apply neutral_app; try exact H; intros d; reflexivity.
Qed.

Lemma neutral_field_or (t : string) : neutral t -> neutral (_field_or FIELDS t).
Proof.
  intros H. apply neutral_quote in H. unfold _field_or.
  apply neutral_wrap, neutral_join; [intros d; reflexivity|].
  repeat constructor; repeat apply neutral_app; try exact H;
    intros d; reflexivity.
Qed.

Lemma neutral_ov_clause : neutral ov_clause.
Proof. intros d. vm_compute. reflexivity. Qed.

Lemma neutral_variant (o : SetOrder) (kw v : string) :
  neutral kw -> In v (_expand_variants o kw) -> neutral v.
Proof.
  intros H Hv. apply neutral_strip in H.
  apply (Permutation_in _ (expand_variants_perm o kw)) in Hv.
  apply variant_set_In in Hv.
  destruct Hv as [-> | [[_ ->] | [_ ->]]]; [exact H | |];
    intros d; now rewrite paren_depth_replace.
Qed.

Lemma neutral_kw_group (o : SetOrder) (kw : string) :
  neutral kw -> neutral (_kw_group o kw).
Proof.
  intros H. unfold _kw_group.
  apply neutral_wrap, neutral_join; [intros d; reflexivity|].
  assert (Hp : Forall neutral (map (_field_or FIELDS) (_expand_variants o kw))).
  { apply Forall_forall. intros x Hx. apply in_map_iff in Hx.
    destruct Hx as (v & <- & Hv).
    apply neutral_field_or. now apply neutral_variant with o kw. }
  unfold kw_parts. destruct (ov_trigger kw); [|exact Hp].
  apply Forall_app. split; [exact Hp|].
  constructor; [apply neutral_ov_clause | constructor].
Qed.

Lemma neutral_stripped (xs : option (list string)) :
  (forall x, In x (or_nil xs) -> balanced x) -> Forall neutral (stripped xs).
Proof.
  intros H. apply Forall_forall. intros x Hx. unfold stripped in Hx.
  apply in_map_iff in Hx. destruct Hx as (y & <- & Hy).
  apply filter_In in Hy. destruct Hy as [Hy _].
  apply neutral_strip, balanced_neutral, H, Hy.
Qed.

Lemma neutral_cat_group (cats : list string) :
  Forall neutral cats -> neutral (cat_group cats).
Proof.
  intros H. apply neutral_wrap, neutral_join; [intros d; reflexivity|].
  apply Forall_forall. intros x Hx. apply in_map_iff in Hx.
  destruct Hx as (c & <- & Hc).
  apply neutral_app; [intros d; reflexivity|].
  exact (proj1 (Forall_forall _ _) H c Hc).
Qed.

Lemma neutral_kw_or_group (o : SetOrder) (keys : list string) :
  Forall neutral keys -> neutral (kw_or_group o keys).
Proof.
  intros H. apply neutral_wrap, neutral_join; [intros d; reflexivity|].
  apply Forall_forall. intros x Hx. apply in_map_iff in Hx.
  destruct Hx as (k & <- & Hk).
  apply neutral_kw_group. exact (proj1 (Forall_forall _ _) H k Hk).
Qed.

(** X13: when the parentheses of every category, keyword and exclusion
    keyword are balanced, in particular when there are none in them, the
    parentheses of the query are balanced. *)
Theorem query_balanced (o : SetOrder)
    (c k : option (list string)) (l : option string)
    (e : option (list string)) :
  (forall x, In x (or_nil c) -> balanced x) ->
  (forall x, In x (or_nil k) -> balanced x) ->
  (forall x, In x (or_nil e) -> balanced x) ->
  balanced (build_search_query o c k l e).
Proof.
  intros Hc Hk He. apply balanced_neutral.
  apply neutral_stripped in Hc, Hk, He.
  apply neutral_cat_group in Hc.
  apply (neutral_kw_or_group o) in Hk, He.
  rewrite build_search_query_eq.
  assert (Hm : neutral (main_query o (stripped c) (stripped k)
                          (if logic_is_and l then "AND" else "OR"))).
  { unfold main_query.
    destruct (stripped c), (stripped k);
      [intros d; reflexivity | exact Hk | exact Hc |].
    apply neutral_app; [exact Hc|].
    apply neutral_app; [intros d; reflexivity|].
    apply neutral_app; [destruct (logic_is_and l); intros d; reflexivity|].
    apply neutral_app; [intros d; reflexivity | exact Hk]. }
  unfold with_exclusion. destruct (stripped e) as [|x xs]; [exact Hm|].
  set (m := main_query _ _ _ _) in *. set (g := kw_or_group o (x :: xs)) in *.
  replace ("(" ++ m ++ ") ANDNOT " ++ g)
    with (("(" ++ m ++ ")") ++ " ANDNOT " ++ g)
    by (cbn [append]; now rewrite append_assoc).
  apply neutral_app; [now apply neutral_wrap|].
  apply neutral_app; [intros d; reflexivity | exact He].
Qed.

Lemma query_balanced_witness :
  balanced (build_search_query insertion_order
              (Some ["cs.CV"]) (Some ["open-vocabulary segmentation"])
              (Some "AND") (Some ["survey"])).
Proof.
  apply query_balanced; intros x [<- | []]; reflexivity.
Defined.
